(** * sonic-chassisd: the packaging descriptor of [setup.py]

    The repository's source is one call of [setup] with keyword arguments.
    The call is embedded as a record whose fields carry the keyword names
    and whose values are the string and list literals of the call, in the
    order of the source. *)

From Stdlib Require Import Strings.String Strings.Ascii.
From stdpp Require Import base strings list gmap.

Local Open Scope string_scope.
#[local] Arguments String.append !_ _ / : simpl nomatch.

(** ** The descriptor *)

Record Descriptor := {
  name : string;
  version : string;
  description : string;
  license : string;
  author : string;
  author_email : string;
  url : string;
  maintainer : string;
  maintainer_email : string;
  scripts : list string;
  classifiers : list string;
  keywords : string
}.

(** [setup(name='sonic-chassisd', ...)], setup.py lines 3 to 29. *)
Definition setup : Descriptor := {|
  name := "sonic-chassisd";
  version := "1.0";
  description := "Chassis daemon for SONiC";
  license := "Apache 2.0";
  author := "SONiC Team";
  author_email := "linuxnetdev@microsoft.com";
  url := "https://github.com/Azure/sonic-platform-daemons";
  maintainer := "Manju Prabhu";
  maintainer_email := "manjunath.prabhu@nokia.com";
  scripts := [
    "scripts/chassisd"
  ];
  classifiers := [
    "Development Status :: 4 - Beta";
    "Environment :: No Input/Output (Daemon)";
    "Intended Audience :: Developers";
    "Intended Audience :: Information Technology";
    "Intended Audience :: System Administrators";
    "License :: OSI Approved :: Apache Software License";
    "Natural Language :: English";
    "Operating System :: POSIX :: Linux";
    "Programming Language :: Python :: 2.7";
    "Topic :: System :: Hardware"
  ];
  keywords := "sonic SONiC chassis Chassis daemon chassisd"
|}.

#[global] Instance Descriptor_eq_dec : EqDecision Descriptor.
Proof. solve_decision. Defined.

(** ** String operations of the host language used by the claims *)

(** [s.startswith(p)], returning the remainder [s[len(p):]] on success. *)
Fixpoint strip_prefix (p s : string) : option string :=
  match p, s with
  | EmptyString, _ => Some s
  | String a p', String b s' =>
      if Ascii.eqb a b then strip_prefix p' s' else None
  | String _ _, EmptyString => None
  end.

(** [s.partition(sep)]: the text before the first occurrence of [sep] and
    the text after it; [None] when [sep] does not occur. *)
Fixpoint partition (sep s : string) : option (string * string) :=
  match strip_prefix sep s with
  | Some rest => Some (EmptyString, rest)
  | None =>
      match s with
      | EmptyString => None
      | String c s' =>
          match partition sep s' with
          | Some (before, after) => Some (String c before, after)
          | None => None
          end
      end
  end.

(** [sub in s]. *)
Definition contains (sub s : string) : bool :=
  match partition sub s with Some _ => true | None => false end.

(** [s.split(sep)] for a one-character separator: every occurrence cuts,
    so adjacent separators give empty pieces and [''.split(sep) == ['']]. *)
Fixpoint split (sep : ascii) (s : string) : list string :=
  match s with
  | EmptyString => [EmptyString]
  | String c s' =>
      if Ascii.eqb c sep then EmptyString :: split sep s'
      else match split sep s' with
           | w :: ws => String c w :: ws
           | [] => [String c EmptyString]
           end
  end.

(** [sep.join(pieces)]. *)
Fixpoint join (sep : ascii) (pieces : list string) : string :=
  match pieces with
  | [] => EmptyString
  | [w] => w
  | w :: ws => w +:+ String sep (join sep ws)
  end.

(** [s.rfind(c)] for a character, [None] standing for Python's [-1]. *)
Fixpoint rfind (c : ascii) (s : string) : option nat :=
  match s with
  | EmptyString => None
  | String a s' =>
      match rfind c s' with
      | Some i => Some (S i)
      | None => if Ascii.eqb a c then Some 0 else None
      end
  end.

(** [s[n:]]. *)
Fixpoint string_drop (n : nat) (s : string) : string :=
  match n, s with
  | 0, _ => s
  | S n', String _ s' => string_drop n' s'
  | S _, EmptyString => EmptyString
  end.

(** [os.path.basename(p)]: [i = p.rfind('/') + 1; return p[i:]]. *)
Definition basename (p : string) : string :=
  match rfind "/" p with
  | Some i => string_drop (S i) p
  | None => p
  end.

(** ** Notions the claims speak of *)

(** The pair that names a distributable unit. *)
Definition identifier (d : Descriptor) : string * string :=
  (name d, version d).

(** A package index, as a list of published descriptors, keeps the spec's
    invariant when no two entries share an identifier. *)
Definition unique_identifiers (index : list Descriptor) : Prop :=
  NoDup (identifier <$> index).

(** The url column of the spec's interface table. *)
Definition spec_table_url : string := "github.com/Azure/sonic-platform-daemons".

(** The tags of a keywords string, [keywords.split(' ')], and their set. *)
Definition keyword_list (d : Descriptor) : list string :=
  split " " (keywords d).

Definition keyword_tags (d : Descriptor) : gset string :=
  list_to_set (keyword_list d).

(** The top-level category of a classifier: the text before its first
    [" :: "]. *)
Definition category (c : string) : string :=
  match partition " :: " c with
  | Some (cat, _) => cat
  | None => c
  end.

(** A split absolute URL, [scheme://netloc/path]. *)
Record Url := { scheme : string; netloc : string; path : string }.

#[global] Instance Url_eq_dec : EqDecision Url.
Proof. solve_decision. Defined.

Definition is_alpha (c : ascii) : bool :=
  let n := nat_of_ascii c in
  (Nat.leb 65 n && Nat.leb n 90) || (Nat.leb 97 n && Nat.leb n 122).

Definition is_scheme_char (c : ascii) : bool :=
  let n := nat_of_ascii c in
  is_alpha c || (Nat.leb 48 n && Nat.leb n 57)
  || Ascii.eqb c "+" || Ascii.eqb c "-" || Ascii.eqb c ".".

Fixpoint string_forallb (f : ascii → bool) (s : string) : bool :=
  match s with
  | EmptyString => true
  | String c s' => f c && string_forallb f s'
  end.

(** A scheme is a letter followed by letters, digits, [+], [-] or [.]. *)
Definition scheme_ok (s : string) : bool :=
  match s with
  | EmptyString => false
  | String c s' => is_alpha c && string_forallb is_scheme_char s'
  end.

(** Cut [u] at its first ["://"], then the remainder at its first ["/"]. *)
Definition urlsplit (u : string) : option Url :=
  match partition "://" u with
  | None => None
  | Some (sch, rest) =>
      match partition "/" rest with
      | Some (host, p) =>
          Some {| scheme := sch; netloc := host; path := String "/" p |}
      | None => Some {| scheme := sch; netloc := rest; path := "" |}
      end
  end.

(** An absolute URL has a well-formed scheme and a non-empty host. *)
Definition absolute_url (u : string) : bool :=
  match urlsplit u with
  | Some x => scheme_ok (scheme x) && negb (String.eqb (netloc x) "")
  | None => false
  end.

(** The shape of one classifier: a non-empty category, the separator, and a
    non-empty remainder. *)
Definition classifier_shape (c : string) : Prop :=
  ∃ cat rest, c = cat +:+ " :: " +:+ rest ∧ cat ≠ "" ∧ rest ≠ "".

(** A second release of the package, for trying statements on an index. *)
Definition next_release : Descriptor := {|
  name := "sonic-chassisd";
  version := "1.1";
  description := description setup;
  license := license setup;
  author := author setup;
  author_email := author_email setup;
  url := url setup;
  maintainer := maintainer setup;
  maintainer_email := maintainer_email setup;
  scripts := scripts setup;
  classifiers := classifiers setup;
  keywords := keywords setup
|}.

(** An upload that reuses the pair of [setup] with other contents. *)
Definition impostor : Descriptor := {|
  name := "sonic-chassisd";
  version := "1.0";
  description := "Another daemon";
  license := license setup;
  author := author setup;
  author_email := author_email setup;
  url := url setup;
  maintainer := maintainer setup;
  maintainer_email := maintainer_email setup;
  scripts := ["scripts/other"];
  classifiers := classifiers setup;
  keywords := keywords setup
|}.

(** ** The package index *)

(** Modelled from the spec: the package index of the target ecosystem, which
    is not among the repository's sources. By the spec's words a published
    name and version pair is immutable: publishing a descriptor whose name
    and version are already in the index is rejected ([None]); any other
    descriptor is added, and nothing published is removed. *)
Definition publish (d : Descriptor) (index : list Descriptor)
    : option (list Descriptor) :=
  if decide (identifier d ∈ identifier <$> index) then None
  else Some (d :: index).

(** The index after one upload attempt: unchanged when it is rejected. *)
Definition upload (d : Descriptor) (index : list Descriptor)
    : list Descriptor :=
  match publish d index with
  | Some index' => index'
  | None => index
  end.

(** The index after a sequence of upload attempts, first to last. *)
Fixpoint publish_all (uploads index : list Descriptor) : list Descriptor :=
  match uploads with
  | [] => index
  | d :: rest => publish_all rest (upload d index)
  end.

(** ** Installation *)

(** An installed file: the source path it was copied from and its
    executable bit. *)
Record File := { origin : string; executable : bool }.

Definition target (bindir script : string) : string :=
  bindir +:+ String "/" (basename script).

(** Modelled from the spec: the install command of the packaging tool,
    which is not among the repository's sources. By the spec's words it
    places every declared entry-point script on the system path as an
    executable under the script's base name, and installs no other file.
    [bindir] is the directory the tool installs executables into. *)
Definition install (bindir : string) (d : Descriptor)
    (fs : gmap string File) : gmap string File :=
  foldl (λ acc script,
           <[target bindir script :=
               {| origin := script; executable := true |}]> acc)
        fs (scripts d).

(** The paths the install command writes. *)
Definition installed_paths (bindir : string) (d : Descriptor) : list string :=
  target bindir <$> scripts d.

(** Command lookup: the first directory of the search path that holds an
    executable file of the given name. *)
Fixpoint which (search_path : list string) (fs : gmap string File)
    (cmd : string) : option string :=
  match search_path with
  | [] => None
  | dir :: rest =>
      match fs !! (dir +:+ String "/" cmd) with
      | Some f =>
          if executable f then Some (dir +:+ String "/" cmd)
          else which rest fs cmd
      | None => which rest fs cmd
      end
  end.

(** ** The operations on small inputs *)

Example strip_prefix_ex : strip_prefix "ab" "abc" = Some "c".
Proof. reflexivity. Qed.
Example partition_ex : partition " :: " "A :: B :: C" = Some ("A", "B :: C").
Proof. reflexivity. Qed.
Example split_ex : split " " "a  b" = ["a"; ""; "b"].
Proof. reflexivity. Qed.
Example basename_ex : basename "scripts/chassisd" = "chassisd".
Proof. reflexivity. Qed.
Example basename_ex2 : basename "a/b/" = "".
Proof. reflexivity. Qed.

Example urlsplit_ex :
  urlsplit "http://h/a/b" = Some {| scheme := "http"; netloc := "h"; path := "/a/b" |}.
Proof. reflexivity. Qed.
Example absolute_url_ex : absolute_url "h/a/b" = false.
Proof. reflexivity. Qed.
Example category_ex : category "Topic :: System :: Hardware" = "Topic".
Proof. reflexivity. Qed.


Example publish_all_ex :
  publish_all [setup; impostor; next_release] [] = [next_release; setup].
Proof. reflexivity. Qed.
Example publish_ex : publish impostor [setup] = None.
Proof. reflexivity. Qed.

(** ** Laws of the string operations *)

Section StringLaws.
Implicit Types (p s r sep a b w : string) (c : ascii).

Lemma strip_prefix_app p r : strip_prefix p (p +:+ r) = Some r.
Proof.
  induction p as [|x p IH]; simpl; [done|].
  by rewrite Ascii.eqb_refl.
Qed.

Lemma strip_prefix_Some p s r : strip_prefix p s = Some r ↔ s = p +:+ r.
Proof.
  split; [|intros ->; apply strip_prefix_app].
  revert s. induction p as [|x p IH]; intros [|y s]; simpl; try congruence.
  destruct (Ascii.eqb_spec x y) as [->|]; [|done].
  intros H. by rewrite (IH _ H).
Qed.

Lemma partition_Some sep s a b :
  partition sep s = Some (a, b) → s = a +:+ sep +:+ b.
Proof.
  revert a. induction s as [|x s IH]; intros a; simpl.
  - destruct (strip_prefix sep "") as [rest|] eqn:E; [|done].
    intros [= <- <-]. exact (proj1 (strip_prefix_Some _ _ _) E).
  - destruct (strip_prefix sep (String x s)) as [rest|] eqn:E.
    + intros [= <- <-]. exact (proj1 (strip_prefix_Some _ _ _) E).
    + destruct (partition sep s) as [[a' b']|]; [|done].
      intros [= <- <-]. simpl. f_equal. by apply IH.
Qed.

Lemma partition_is_Some sep a b : is_Some (partition sep (a +:+ sep +:+ b)).
Proof.
  induction a as [|x a IH]; simpl.
  - assert (partition sep (sep +:+ b) = Some ("", b)) as ->; [|by eexists].
    destruct (sep +:+ b) eqn:E; simpl; rewrite <- E, strip_prefix_app; done.
  - destruct (strip_prefix sep (String x (a +:+ sep +:+ b))); [by eexists|].
    destruct IH as [[a' b'] ->]. by eexists.
Qed.

(** [contains] decides the occurrence of [sub] as a contiguous piece. *)
Lemma contains_true sub s :
  contains sub s = true ↔ ∃ a b, s = a +:+ sub +:+ b.
Proof.
  unfold contains. split.
  - destruct (partition sub s) as [[a b]|] eqn:E; [|done].
    intros _. exists a, b. by apply partition_Some.
  - intros (a & b & ->). by destruct (partition_is_Some sub a b) as [? ->].
Qed.

Lemma split_nonempty c s : split c s ≠ [].
Proof.
  destruct s as [|x s]; simpl; [done|].
  destruct (Ascii.eqb x c); [done|]. by destruct (split c s).
Qed.

(** Joining the pieces with the separator gives the string back. *)
Lemma join_split c s : join c (split c s) = s.
Proof.
  induction s as [|x s IH]; simpl; [done|].
  destruct (Ascii.eqb_spec x c) as [->|Hne].
  - pose proof (split_nonempty c s) as Hn.
    destruct (split c s) as [|w ws]; [done|].
    simpl in *. by rewrite IH.
  - pose proof (split_nonempty c s) as Hn.
    destruct (split c s) as [|w ws]; [done|].
    destruct ws as [|w' ws]; simpl in *; by rewrite <- IH.
Qed.

(** No piece of a split holds the separator. *)
Lemma split_pieces_free c s w : w ∈ split c s → rfind c w = None.
Proof.
  revert w. induction s as [|x s IH]; intros w; simpl.
  - intros ->%list_elem_of_singleton. done.
  - destruct (Ascii.eqb_spec x c) as [->|Hne].
    + intros [->|Hw]%elem_of_cons; [done|]. by apply IH.
    + pose proof (split_nonempty c s) as Hn.
      destruct (split c s) as [|w0 ws]; [done|].
      intros [->|Hw]%elem_of_cons.
      * simpl. rewrite (IH w0) by left.
        by destruct (Ascii.eqb_spec x c).
      * apply IH. by right.
Qed.

Lemma rfind_app_free c p w :
  rfind c w = None → rfind c (p +:+ String c w) = Some (String.length p).
Proof.
  intros Hw. induction p as [|x p IH]; simpl.
  - by rewrite Hw, Ascii.eqb_refl.
  - by rewrite IH.
Qed.

(** The base name of [dir/file] is [file] when [file] has no slash. *)
Lemma basename_join dir file :
  rfind "/" file = None → basename (dir +:+ String "/" file) = file.
Proof.
  intros Hf. unfold basename. rewrite (rfind_app_free _ _ _ Hf).
  change (S (String.length dir)) with (String.length (String "/" dir)).
  clear Hf. induction dir as [|x dir IH]; simpl; [done|].
  exact IH.
Qed.
End StringLaws.

(** ** Auxiliary facts on indexes, maps and command lookup *)

Lemma NoDup_fmap_eq {A B} (f : A → B) (l : list A) (x y : A) :
  NoDup (f <$> l) → x ∈ l → y ∈ l → f x = f y → x = y.
Proof.
  induction l as [|z l IH]; simpl; [by intros _ ?%elem_of_nil|].
  intros [Hz Hl]%NoDup_cons [->|Hx]%elem_of_cons [->|Hy]%elem_of_cons Hf.
  - done.
  - exfalso. apply Hz. rewrite Hf. by apply list_elem_of_fmap_2.
  - exfalso. apply Hz. rewrite <- Hf. by apply list_elem_of_fmap_2.
  - by apply IH.
Qed.

Lemma which_is_Some search_path (fs : gmap string File) cmd dir f :
  dir ∈ search_path →
  fs !! (dir +:+ String "/" cmd) = Some f →
  executable f = true →
  is_Some (which search_path fs cmd).
Proof.
  intros Hin Hf Hx.
  induction search_path as [|d rest IH]; [by apply elem_of_nil in Hin|].
  simpl. apply elem_of_cons in Hin as [<-|Hin].
  - rewrite Hf, Hx. by eexists.
  - destruct (fs !! (d +:+ String "/" cmd)) as [g|]; [|by apply IH].
    destruct (executable g); [by eexists | by apply IH].
Qed.

Lemma which_Some search_path (fs : gmap string File) cmd p :
  which search_path fs cmd = Some p →
  ∃ dir f, dir ∈ search_path ∧ p = dir +:+ String "/" cmd ∧
           fs !! p = Some f ∧ executable f = true.
Proof.
  induction search_path as [|d rest IH]; simpl; [done|].
  destruct (fs !! (d +:+ String "/" cmd)) as [g|] eqn:E.
  - destruct (executable g) eqn:Hx.
    + intros [= <-]. exists d, g. split_and!; [by left|done..].
    + intros (dir & f & ? & ?)%IH. exists dir, f. split; [by right|done].
  - intros (dir & f & ? & ?)%IH. exists dir, f. split; [by right|done].
Qed.

(** ** Laws of the package index *)

Lemma identifier_eq (d e : Descriptor) :
  identifier d = identifier e ↔ name d = name e ∧ version d = version e.
Proof.
  unfold identifier. split; [by intros [= -> ->]|by intros [-> ->]].
Qed.

(** An upload is rejected exactly when an entry of the index already has
    its name and its version. *)
Lemma publish_None (d : Descriptor) (index : list Descriptor) :
  publish d index = None ↔
  ∃ e, e ∈ index ∧ name e = name d ∧ version e = version d.
Proof.
  unfold publish. destruct (decide (identifier d ∈ identifier <$> index))
    as [Hin|Hout]; split; try done.
  - intros _. apply list_elem_of_fmap in Hin as (e & He & Hin).
    exists e. split; [done|]. symmetry in He. by apply identifier_eq.
  - intros (e & Hin & Hn & Hv). exfalso. apply Hout.
    apply list_elem_of_fmap. exists e. split; [|done].
    symmetry. by apply identifier_eq.
Qed.

Lemma publish_Some (d : Descriptor) (index index' : list Descriptor) :
  publish d index = Some index' ↔
  (identifier d ∉ identifier <$> index) ∧ index' = d :: index.
Proof.
  unfold publish. destruct (decide (identifier d ∈ identifier <$> index))
    as [Hin|Hout]; split.
  - done.
  - by intros [Hout _].
  - by intros [= <-].
  - by intros [_ ->].
Qed.

(** Uploads keep the identifiers of the index distinct. *)
Lemma upload_unique (d : Descriptor) (index : list Descriptor) :
  unique_identifiers index → unique_identifiers (upload d index).
Proof.
  intros Hu. unfold upload.
  destruct (publish d index) as [index'|] eqn:E; [|done].
  apply publish_Some in E as [Hout ->].
  unfold unique_identifiers. rewrite fmap_cons. by apply NoDup_cons.
Qed.

(** Uploads remove nothing. *)
Lemma upload_mono (d e : Descriptor) (index : list Descriptor) :
  e ∈ index → e ∈ upload d index.
Proof.
  intros He. unfold upload.
  destruct (publish d index) as [index'|] eqn:E; [|done].
  apply publish_Some in E as [_ ->]. by right.
Qed.

Lemma publish_all_unique (uploads index : list Descriptor) :
  unique_identifiers index → unique_identifiers (publish_all uploads index).
Proof.
  revert index. induction uploads as [|d rest IH]; intros index Hu; [done|].
  simpl. by apply IH, upload_unique.
Qed.

Lemma publish_all_mono (uploads index : list Descriptor) (e : Descriptor) :
  e ∈ index → e ∈ publish_all uploads index.
Proof.
  revert index. induction uploads as [|d rest IH]; intros index He; [done|].
  simpl. by apply IH, upload_mono.
Qed.

Lemma publish_all_empty_unique (uploads : list Descriptor) :
  unique_identifiers (publish_all uploads []).
Proof. apply publish_all_unique, NoDup_nil_2. Qed.

(** ** The claims *)

(** C2: the scripts field is a sequence of string paths with exactly one
    entry, and that entry is 'scripts/chassisd'. *)
Theorem scripts_single_entry :
  scripts setup = ["scripts/chassisd"] ∧ length (scripts setup) = 1.
Proof. split; reflexivity. Qed.

(** C3: the name field is 'sonic-chassisd' and the version field is '1.0',
    and this pair is the unique identifier of the unit. In the index reached
    from the empty one by any sequence of uploads, once the descriptor is
    published: the only entry with this name and version is the descriptor;
    every further upload with this name and version is rejected, whatever
    its other fields; the descriptor stays in the index through all later
    uploads; and an upload is rejected only when an entry has both its name
    and its version, so another version of the same name is not kept out by
    the descriptor. *)
Theorem name_version_identify (uploads : list Descriptor) :
  setup ∈ publish_all uploads [] →
  name setup = "sonic-chassisd" ∧ version setup = "1.0" ∧
  (∀ d, d ∈ publish_all uploads [] →
        name d = "sonic-chassisd" → version d = "1.0" → d = setup) ∧
  (∀ d, name d = "sonic-chassisd" → version d = "1.0" →
        publish d (publish_all uploads []) = None) ∧
  (∀ more, setup ∈ publish_all more (publish_all uploads [])) ∧
  (∀ d, publish d (publish_all uploads []) = None →
        ∃ e, e ∈ publish_all uploads [] ∧
             name e = name d ∧ version e = version d).
Proof.
  intros Hin. split_and!.
  - reflexivity.
  - reflexivity.
  - intros d Hd Hn Hv.
    apply (NoDup_fmap_eq identifier (publish_all uploads [])); try done.
    + apply publish_all_empty_unique.
    + by apply identifier_eq.
  - intros d Hn Hv. apply publish_None. exists setup. by rewrite Hn, Hv.
  - intros more. by apply publish_all_mono.
  - intros d Hd. by apply publish_None.
Qed.

Lemma name_version_identify_witness :
  setup ∈ publish_all [next_release; setup; impostor] [] ∧
  name setup = "sonic-chassisd" ∧ version setup = "1.0" ∧
  (∀ d, d ∈ publish_all [next_release; setup; impostor] [] →
        name d = "sonic-chassisd" → version d = "1.0" → d = setup) ∧
  (∀ d, name d = "sonic-chassisd" → version d = "1.0" →
        publish d (publish_all [next_release; setup; impostor] []) = None) ∧
  (∀ more, setup ∈ publish_all more
                     (publish_all [next_release; setup; impostor] [])) ∧
  (∀ d, publish d (publish_all [next_release; setup; impostor] []) = None →
        ∃ e, e ∈ publish_all [next_release; setup; impostor] [] ∧
             name e = name d ∧ version e = version d).
Proof.
  assert (setup ∈ publish_all [next_release; setup; impostor] []) as Hin.
  { apply (bool_decide_unpack _). vm_compute. exact I. }
  split; [exact Hin|].
  exact (name_version_identify [next_release; setup; impostor] Hin).
Defined.

(** C5, as the claim states it, fails: the url field is not the string of
    the spec's interface table. *)
Lemma url_not_spec_table :
  ¬ (url setup = "github.com/Azure/sonic-platform-daemons").
Proof. discriminate. Qed.

(** C5, amended: the url field is 'https://' followed by the string of the
    spec's interface table, that is
    'https://github.com/Azure/sonic-platform-daemons'. *)
Theorem url_is_scheme_then_spec_table :
  url setup = "https://" +:+ spec_table_url ∧
  url setup = "https://github.com/Azure/sonic-platform-daemons".
Proof. split; reflexivity. Qed.

(** C6: the descriptive and contact fields carry the values of the spec's
    table: description, license, author, author_email, maintainer and
    maintainer_email. *)
Theorem descriptive_fields :
  description setup = "Chassis daemon for SONiC" ∧
  license setup = "Apache 2.0" ∧
  author setup = "SONiC Team" ∧
  author_email setup = "linuxnetdev@microsoft.com" ∧
  maintainer setup = "Manju Prabhu" ∧
  maintainer_email setup = "manjunath.prabhu@nokia.com".
Proof. split_and!; reflexivity. Qed.

(** C8: the keywords field is the one string
    'sonic SONiC chassis Chassis daemon chassisd'; splitting it on spaces
    gives the six tags sonic, SONiC, chassis, Chassis, daemon, chassisd, in
    that order, joining them with spaces gives the field back, and the six
    are distinct, so they are the elements of the set of keyword tags. *)
Theorem keywords_split :
  keywords setup = "sonic SONiC chassis Chassis daemon chassisd" ∧
  keyword_list setup =
    ["sonic"; "SONiC"; "chassis"; "Chassis"; "daemon"; "chassisd"] ∧
  join " " (keyword_list setup) = keywords setup ∧
  NoDup (keyword_list setup) ∧
  size (keyword_tags setup) = 6 ∧
  ∀ t, t ∈ keyword_tags setup ↔
       t ∈ ["sonic"; "SONiC"; "chassis"; "Chassis"; "daemon"; "chassisd"].
Proof.
  assert (NoDup (keyword_list setup)) as Hnd.
  { apply (bool_decide_unpack _). vm_compute. exact I. }
  split_and!.
  - reflexivity.
  - reflexivity.
  - apply join_split.
  - exact Hnd.
  - unfold keyword_tags. by rewrite size_list_to_set.
  - intros t. unfold keyword_tags. by rewrite elem_of_list_to_set.
Qed.

(** C9: the url field of the code is
    'https://github.com/Azure/sonic-platform-daemons'; it begins with the
    scheme prefix 'https://', what follows the prefix is the string of the
    spec's table, and it splits as an absolute URL with scheme https, host
    github.com and path /Azure/sonic-platform-daemons, while the table's
    string alone is not an absolute URL. *)
Theorem url_absolute_https :
  url setup = "https://github.com/Azure/sonic-platform-daemons" ∧
  strip_prefix "https://" (url setup) = Some spec_table_url ∧
  urlsplit (url setup) =
    Some {| scheme := "https"; netloc := "github.com";
            path := "/Azure/sonic-platform-daemons" |} ∧
  absolute_url (url setup) = true ∧
  absolute_url spec_table_url = false.
Proof. split_and!; reflexivity. Qed.

Lemma classifier_shape_intro c cat rest :
  partition " :: " c = Some (cat, rest) → cat ≠ "" → rest ≠ "" →
  classifier_shape c.
Proof.
  intros Hp Hc Hr. exists cat, rest. split; [|done].
  by apply partition_Some.
Qed.

(** C10: the classifiers list has exactly 10 strings, pairwise distinct,
    and each one contains the separator ' :: ', between a non-empty
    category and a non-empty remainder. *)
Theorem classifiers_shape :
  length (classifiers setup) = 10 ∧
  NoDup (classifiers setup) ∧
  Forall (λ c, contains " :: " c = true) (classifiers setup) ∧
  Forall classifier_shape (classifiers setup).
Proof.
  split_and!.
  - reflexivity.
  - apply (bool_decide_unpack _). vm_compute. exact I.
  - repeat constructor.
  - repeat (apply Forall_cons; split;
            [eapply classifier_shape_intro; [reflexivity|done..]|]).
    apply Forall_nil_2.
Qed.

(** The top-level categories of the classifiers, in order of first
    occurrence; the runtime version is the Python 2.7 entry. *)
Lemma classifiers_categories :
  remove_dups (category <$> classifiers setup) =
    ["Development Status"; "Environment"; "Intended Audience"; "License";
     "Natural Language"; "Operating System"; "Programming Language";
     "Topic"] ∧
  "Programming Language :: Python :: 2.7" ∈ classifiers setup.
Proof.
  split; [by vm_compute|].
  apply (bool_decide_unpack _). vm_compute. exact I.
Qed.

Lemma install_setup bindir (fs : gmap string File) :
  install bindir setup fs =
    <[bindir +:+ "/chassisd" :=
        {| origin := "scripts/chassisd"; executable := true |}]> fs.
Proof. reflexivity. Qed.

(** C4: installing the descriptor writes exactly one file, the copy of the
    one declared script under its base name 'chassisd' in the directory for
    executables; when that directory is on the command search path, looking
    up 'chassisd' finds an executable file of that name, and every other
    path of the file system is as it was. *)
Theorem install_places_chassisd
    (bindir : string) (search_path : list string) (fs : gmap string File) :
  bindir ∈ search_path →
  basename <$> scripts setup = ["chassisd"] ∧
  installed_paths bindir setup = [bindir +:+ "/chassisd"] ∧
  install bindir setup fs !! (bindir +:+ "/chassisd") =
    Some {| origin := "scripts/chassisd"; executable := true |} ∧
  (∃ p f, which search_path (install bindir setup fs) "chassisd" = Some p ∧
          basename p = "chassisd" ∧
          install bindir setup fs !! p = Some f ∧ executable f = true) ∧
  dom (install bindir setup fs) = {[bindir +:+ "/chassisd"]} ∪ dom fs ∧
  (∀ p, p ≠ bindir +:+ "/chassisd" → install bindir setup fs !! p = fs !! p).
Proof.
  intros Hin. rewrite install_setup. split_and!.
  - reflexivity.
  - reflexivity.
  - apply lookup_insert_eq.
  - destruct (which_is_Some search_path
                (<[bindir +:+ "/chassisd" :=
                     {| origin := "scripts/chassisd"; executable := true |}]> fs)
                "chassisd" bindir _ Hin (lookup_insert_eq _ _ _) eq_refl)
      as [p Hp].
    destruct (which_Some _ _ _ _ Hp) as (dir & f & _ & -> & Hf & Hx).
    exists (dir +:+ "/chassisd"), f. split_and!; [done| |done..].
    by apply basename_join.
  - apply dom_insert_L.
  - intros p Hne. by apply lookup_insert_ne.
Qed.

Lemma install_places_chassisd_witness :
  "/usr/bin" ∈ ["/usr/local/bin"; "/usr/bin"] ∧
  basename <$> scripts setup = ["chassisd"] ∧
  installed_paths "/usr/bin" setup = ["/usr/bin/chassisd"] ∧
  install "/usr/bin" setup (∅ : gmap string File) !! "/usr/bin/chassisd" =
    Some {| origin := "scripts/chassisd"; executable := true |} ∧
  (∃ p f, which ["/usr/local/bin"; "/usr/bin"]
            (install "/usr/bin" setup ∅) "chassisd" = Some p ∧
          basename p = "chassisd" ∧
          install "/usr/bin" setup (∅ : gmap string File) !! p = Some f ∧
          executable f = true) ∧
  dom (install "/usr/bin" setup (∅ : gmap string File)) =
    {["/usr/bin/chassisd"]} ∪ dom (∅ : gmap string File) ∧
  (∀ p, p ≠ "/usr/bin/chassisd" →
        install "/usr/bin" setup (∅ : gmap string File) !! p =
          (∅ : gmap string File) !! p).
Proof.
  assert ("/usr/bin" ∈ ["/usr/local/bin"; "/usr/bin"]) as Hin.
  { apply (bool_decide_unpack _). vm_compute. exact I. }
  split; [exact Hin|].
  exact (install_places_chassisd "/usr/bin" ["/usr/local/bin"; "/usr/bin"]
           ∅ Hin).
Defined.
